(** * Breep: listener registries, peer manager guards and TCP I/O timers

    A shallow embedding of three headers of the Breep peer-to-peer library:

    - [network/detail/object_builder.hpp]: the typed data-listener registry
      with its deferred to-add / to-remove queues;
    - [network/basic_peer_manager.hpp]: the peer table, the listener-id
      counter, the running flag and the port accessor;
    - [tcp/basic_io_manager.hpp]: template defaults, the identity packet of
      the handshake, the keep-alive and the timeout handlers.

    Containers follow the C++ ones: [std::unordered_map] is a [gmap],
    [std::vector] and [std::string] are lists, unsigned integers are [N]
    with the casts written out. *)

From Stdlib Require Import ZArith NArith Ascii String.
From stdpp Require Import base option list gmap strings.

Local Open Scope N_scope.

(** [listener_id] (breep/network/typedefs.hpp): an unsigned integer. *)
Definition listener_id := N.

(** * network/detail/object_builder.hpp *)
Module ObjectBuilder.
Section object_builder.
(** [L] stands for [data_received_listener<T>] (a [std::function]), [T]
    for the user type, [archive] for [boost::archive::binary_iarchive]
    and [peer] for [network::peer]. *)
Context {L T archive peer : Type}.

(** The callable a [std::move] leaves in the source slot: the language
    only says it is valid, so it is a parameter of the model. *)
Variable moved_from : L -> L.

(** [data >> object] on an archive holding an object of type [T]: the
    object read and the archive after the read. *)
Variable extract : archive -> T * archive.

(** [type_traits<T>::hash_code()]. *)
Variable hash_code : N.

Record object_builder := mk_object_builder {
  m_listeners : gmap listener_id L;
  m_to_add : list (listener_id * L);
  m_to_remove : list listener_id
}.

(** [basic_netdata_wrapper<io_manager, T>], the argument of a listener. *)
Record basic_netdata_wrapper := mk_wrapper {
  source : peer;
  data : T;
  is_private : bool;
  wrapper_listener_id : listener_id
}.

(** What one call of [build_and_call] does besides updating the
    registry: its return value, the archive it leaves and the listener
    invocations in the order of the loop, each with the wrapper as the
    listener sees it. *)
Record dispatch := mk_dispatch {
  returned : bool;
  archive_after : archive;
  calls : list (L * basic_netdata_wrapper)
}.

(** The constructor: three empty containers. *)
Definition empty_builder : object_builder :=
  mk_object_builder ∅ [] [].

(** [m_listeners.emplace(std::move(pair))]: no effect on a key that is
    already present. *)
Definition emplace (m : gmap listener_id L) (pair : listener_id * L)
  : gmap listener_id L :=
  match m !! pair.1 with
  | Some _ => m
  | None => <[pair.1 := pair.2]> m
  end.

(** [m_listeners.erase(id)]. *)
Definition erase (m : gmap listener_id L) (id : listener_id)
  : gmap listener_id L := delete id m.

(** The two loops under [m_mutex] at the head of [build_and_call]. *)
Definition apply_queues (ob : object_builder) : gmap listener_id L :=
  foldl erase (foldl emplace (m_listeners ob) (m_to_add ob)) (m_to_remove ob).

(** The registry after the two loops: the live map is updated; the
    vectors are iterated, their entries moved from, and nothing clears
    them. *)
Definition drained (ob : object_builder) : object_builder :=
  mk_object_builder (apply_queues ob)
                    (prod_map id moved_from <$> m_to_add ob)
                    (m_to_remove ob).

Definition call_listener (received_from : peer) (object : T) (priv : bool)
    (listeners_pair : listener_id * L) : L * basic_netdata_wrapper :=
  (listeners_pair.2, mk_wrapper received_from object priv listeners_pair.1).

(** [build_and_call]; the logger calls are left out. *)
Definition build_and_call (ob : object_builder) (received_from : peer)
    (input : archive) (priv : bool) : object_builder * dispatch :=
  let ob' := drained ob in
  if bool_decide (m_listeners ob' = ∅) then
    (ob', mk_dispatch false input [])
  else
    let '(object, rest) := extract input in
    (ob', mk_dispatch true rest
            (call_listener received_from object priv
               <$> map_to_list (m_listeners ob'))).

(** [add_listener]: [push_back] on [m_to_add]. *)
Definition add_listener (ob : object_builder) (id : listener_id) (l : L)
  : object_builder * (listener_id * N) :=
  (mk_object_builder (m_listeners ob) (m_to_add ob ++ [(id, l)]) (m_to_remove ob),
   (id, hash_code)).

(** [*it = v.back(); v.pop_back();] at position [i]. *)
Definition swap_pop {A} (i : nat) (v : list A) : list A :=
  match last v with
  | Some back => take (pred (length v)) (<[i := back]> v)
  | None => v
  end.

(** [remove_listener]. *)
Definition remove_listener (ob : object_builder) (id : listener_id)
  : object_builder * bool :=
  if bool_decide (is_Some (m_listeners ob !! id)) then
    if bool_decide (id ∈ m_to_remove ob) then (ob, false)
    else (mk_object_builder (m_listeners ob) (m_to_add ob)
                            (m_to_remove ob ++ [id]), true)
  else
    match list_find (λ l_it : listener_id * L, l_it.1 = id) (m_to_add ob) with
    | Some (i, _) =>
        (mk_object_builder (m_listeners ob) (swap_pop i (m_to_add ob))
                           (m_to_remove ob), true)
    | None => (ob, false)
    end.


(** [clear_any]. *)
Definition clear_any (ob : object_builder) : object_builder :=
  mk_object_builder ∅ [] [].

(** The registration calls a listener body or the embedder can make
    between two dispatches. *)
Inductive listener_call :=
  | call_add_listener (id : listener_id) (l : L)
  | call_remove_listener (id : listener_id).

Definition listener_step (ob : object_builder) (c : listener_call)
  : object_builder :=
  match c with
  | call_add_listener id l => (add_listener ob id l).1
  | call_remove_listener id => (remove_listener ob id).1
  end.

Definition listener_run (ob : object_builder) (cs : list listener_call)
  : object_builder := foldl listener_step ob cs.

End object_builder.
Arguments listener_call : clear implicits.
Arguments object_builder : clear implicits.
Arguments basic_netdata_wrapper : clear implicits.
Arguments dispatch : clear implicits.
End ObjectBuilder.

(** * Shared data: commands, identifiers, peer records *)

(** Modelled from the spec: the command codes of its wire-protocol table
    (breep/network/detail/commands.hpp is not among the sources). *)
Inductive commands :=
  | send_to | send_to_all | forward_to | stop_forwarding | forwarding_to
  | connect_to | cant_connect | update_distance | retrieve_distance
  | retrieve_peers | peers_list | peer_disconnection | keep_alive
  | null_command.

(** Modelled from the spec: [constant::unused_param], the payload of a frame
    that carries none (the keep-alive frame is zero-payload). *)
Definition unused_param : list N := [].

(** [boost::uuids::uuid]: sixteen bytes, here the 128-bit number they spell
    with [data[0]] as the most significant byte. *)
Definition uuid := N.

Definition uuid_data (u : uuid) (i : nat) : N :=
  N.shiftr u (8 * (15 - N.of_nat i)) `mod` 256.

(** [boost::uuids::detail::to_char]. *)
Definition to_char (i : N) : ascii :=
  if i <=? 9 then ascii_of_N (48 + i) else ascii_of_N (97 + (i - 10)).

(** [boost::uuids::to_string]: two hexadecimal digits per byte and a hyphen
    after the bytes of index 3, 5, 7 and 9. *)
Definition to_string (u : uuid) : list ascii :=
  flat_map
    (λ i : nat,
       let b := uuid_data u i in
       [to_char (N.land (N.shiftr b 4) 15); to_char (N.land b 15)]
       ++ (if bool_decide (i ∈ [3; 5; 7; 9]%nat) then ["-"%char] else []))
    (seq 0 16).

(** [static_cast<uint8_t>], stored in a [char] of a [std::string]. *)
Definition uint8 (n : N) : ascii := ascii_of_N (n `mod` 256).

(** [tcp::io_manager_data]: [socket] is a shared pointer, null in a record
    built by the default constructor; [timestamp] counts milliseconds. *)
Record io_manager_data := mk_io_manager_data {
  socket : option nat;
  fixed_buffer : list N;
  dynamic_buffer : list N;
  last_command : commands;
  timestamp : Z
}.

(** The constructors of [io_manager_data]: the socket pointer given (null
    for the default constructor), a fresh zero-filled array of
    [BUFFER_LENGTH] bytes, an empty vector, [null_command] and the reading
    [now] of the system clock. *)
Definition new_io_manager_data (buffer_length : N) (socket_sptr : option nat)
    (now : Z) : io_manager_data :=
  mk_io_manager_data socket_sptr (replicate (N.to_nat buffer_length) 0) []
    null_command now.

Definition default_io_manager_data (buffer_length : N) (now : Z)
  : io_manager_data := new_io_manager_data buffer_length None now.

(** Modelled from the spec: the peer record (breep/network/basic_peer.hpp is
    not among the sources); [io_data] is the member the I/O manager reads. *)
Record basic_peer := mk_basic_peer {
  id : uuid;
  address : N;
  listening_port : N;
  is_directly_connected : bool;
  bridge : option uuid;
  distance : N;
  io_data : io_manager_data
}.

Record local_peer := mk_local_peer { local_id : uuid }.

(** * Exceptions *)

Inductive exception := thrown (what_arg : string).

Inductive completion (A : Type) :=
  | Normal (a : A)
  | Throw (e : exception).
Arguments Normal {A} a.
Arguments Throw {A} e.

Definition and_then {A B} (c : completion A) (k : A → completion B)
  : completion B :=
  match c with
  | Normal a => k a
  | Throw e => Throw e
  end.

Notation "c ;;; k" := (and_then c (λ _, k))
  (at level 100, k at level 200, right associativity).


(** * tcp/basic_io_manager.hpp: template arguments and state *)

(** The template parameter list of [basic_io_manager]; an argument left out
    takes the default written in the header. *)
Record template_arguments := mk_template_arguments {
  BUFFER_LENGTH : N;
  keep_alive_send_millis : N;
  timeout_millis : N;
  timeout_check_interval_millis : N
}.

Definition basic_io_manager_template (buffer_length : N)
    (keep_alive_arg timeout_arg timeout_check_arg : option N)
  : template_arguments :=
  let keep_alive_send := default 5000 keep_alive_arg in
  let timeout := default 120000 timeout_arg in
  let timeout_check := default (timeout `div` 5) timeout_check_arg in
  mk_template_arguments buffer_length keep_alive_send timeout timeout_check.

(** [typedef basic_io_manager<1024> io_manager;] *)
Definition io_manager : template_arguments :=
  basic_io_manager_template 1024 None None None.

(** The members of [basic_io_manager] that the modelled functions touch:
    the port the IPv6 acceptor is bound to, the optional IPv4 acceptor and
    the identity packet. *)
Record basic_io_manager := mk_basic_io_manager {
  m_acceptor : N;
  m_acceptor_v4 : option N;
  m_id_packet : list ascii
}.

Inductive timer := m_timeout_dlt | m_keepalive_dlt.

Inductive handler := keep_alive_impl_handler | timeout_impl_handler.

(** The calls a timer handler issues, in order. *)
Inductive io_action :=
  | call_send (command : commands) (payload : list N) (target : basic_peer)
  | call_socket_close (target : basic_peer)
  | call_expires_from_now (t : timer) (millisec : N)
  | call_async_wait (t : timer) (h : handler).

(** [std::chrono::milliseconds(n)] for an [unsigned long] [n]: the count is
    a signed 64-bit integer. *)
Definition chrono_milliseconds (n : N) : Z :=
  let z := (Z.of_N n `mod` 2 ^ 64)%Z in
  if (z <? 2 ^ 63)%Z then z else (z - 2 ^ 64)%Z.

(** The test of [timeout_impl] on one peer. *)
Definition timed_out (args : template_arguments) (time_now : Z)
    (p : basic_peer) : bool :=
  (chrono_milliseconds (timeout_millis args)
     <? time_now - timestamp (io_data p))%Z.

(** The loop of [timeout_impl] over the entries of the table, in the order
    of the iteration: [socket->close()] on each peer that timed out.
    Through a null [socket] the call has undefined behaviour and the
    handler has no result from there on: [None]. *)
Fixpoint close_timed_out (args : template_arguments) (time_now : Z)
    (entries : list (uuid * basic_peer)) : option (list io_action) :=
  match entries with
  | [] => Some []
  | peers_pair :: rest =>
      if timed_out args time_now peers_pair.2 then
        match socket (io_data peers_pair.2) with
        | Some _ =>
            cons (call_socket_close peers_pair.2)
              <$> close_timed_out args time_now rest
        | None => None
        end
      else close_timed_out args time_now rest
  end.

(** * network/basic_peer_manager.hpp *)

(** [static const unsigned short default_port = 3479;] *)
Definition default_port : N := 3479.

(** [explicit basic_peer_manager(unsigned short port = default_port)]: the
    port a constructor receives when the argument is left out. *)
Definition constructor_port (port_arg : option N) : N :=
  default default_port port_arg.

Section managers.
(** The three [std::function] listener types. *)
Context {connection_listener data_received_listener disconnection_listener : Type}.

Record basic_peer_manager := mk_basic_peer_manager {
  m_peers : gmap uuid basic_peer;
  m_co_listener : gmap listener_id connection_listener;
  m_data_r_listener : gmap listener_id data_received_listener;
  m_dc_listener : gmap listener_id disconnection_listener;
  m_me : local_peer;
  m_manager : basic_io_manager;
  m_id_count : listener_id;
  m_port : N;
  m_running : bool
}.

Definition set_m_peers (v : gmap uuid basic_peer) (pm : basic_peer_manager) :=
  mk_basic_peer_manager v (m_co_listener pm) (m_data_r_listener pm)
    (m_dc_listener pm) (m_me pm) (m_manager pm) (m_id_count pm) (m_port pm)
    (m_running pm).
Definition set_m_co_listener v (pm : basic_peer_manager) :=
  mk_basic_peer_manager (m_peers pm) v (m_data_r_listener pm)
    (m_dc_listener pm) (m_me pm) (m_manager pm) (m_id_count pm) (m_port pm)
    (m_running pm).
Definition set_m_data_r_listener v (pm : basic_peer_manager) :=
  mk_basic_peer_manager (m_peers pm) (m_co_listener pm) v
    (m_dc_listener pm) (m_me pm) (m_manager pm) (m_id_count pm) (m_port pm)
    (m_running pm).
Definition set_m_dc_listener v (pm : basic_peer_manager) :=
  mk_basic_peer_manager (m_peers pm) (m_co_listener pm) (m_data_r_listener pm)
    v (m_me pm) (m_manager pm) (m_id_count pm) (m_port pm) (m_running pm).
Definition set_m_manager v (pm : basic_peer_manager) :=
  mk_basic_peer_manager (m_peers pm) (m_co_listener pm) (m_data_r_listener pm)
    (m_dc_listener pm) (m_me pm) v (m_id_count pm) (m_port pm) (m_running pm).
Definition set_m_id_count v (pm : basic_peer_manager) :=
  mk_basic_peer_manager (m_peers pm) (m_co_listener pm) (m_data_r_listener pm)
    (m_dc_listener pm) (m_me pm) (m_manager pm) v (m_port pm) (m_running pm).
Definition set_m_port v (pm : basic_peer_manager) :=
  mk_basic_peer_manager (m_peers pm) (m_co_listener pm) (m_data_r_listener pm)
    (m_dc_listener pm) (m_me pm) (m_manager pm) (m_id_count pm) v (m_running pm).
Definition set_m_running v (pm : basic_peer_manager) :=
  mk_basic_peer_manager (m_peers pm) (m_co_listener pm) (m_data_r_listener pm)
    (m_dc_listener pm) (m_me pm) (m_manager pm) (m_id_count pm) (m_port pm) v.

(** ** Accessors *)

(** What an accessor that returns a reference hands out: the member it
    designates, read through [deref] in the manager as it is at the time
    of the read. *)
Inductive member_reference := ref_m_peers.

Definition deref (pm : basic_peer_manager) (r : member_reference)
  : gmap uuid basic_peer :=
  match r with ref_m_peers => m_peers pm end.

(** [const std::unordered_map<...>& peers() const { return m_peers; }] *)
Definition peers (pm : basic_peer_manager) : member_reference := ref_m_peers.

(** [unsigned short port() const] *)
Definition port (pm : basic_peer_manager) : N := m_port pm.

(** [const local_peer<io_manager>& self() const] *)
Definition self (pm : basic_peer_manager) : local_peer := m_me pm.

(** ** tcp/basic_io_manager.hpp: identity packet and port *)

(** [detail::make_little_endian(in, out)] is not among the sources: the
    output container it leaves is a parameter. *)
Variable make_little_endian : list ascii → list ascii → list ascii.

(** [make_id_packet]; [m_owner] is passed as [owner]. [size() - 1] is
    computed on [size_t]; an index past the end of the string is left
    unwritten. *)
Definition make_id_packet (owner : basic_peer_manager) : list ascii :=
  let id_str := to_string (local_id (self owner)) in
  let cleared : list ascii := [] in
  let resized := resize 3 zero cleared in
  let filled := make_little_endian id_str resized in
  let with_len :=
    <[0%nat := uint8 ((N.of_nat (length filled) + (2 ^ 64 - 1)) `mod` 2 ^ 64)]>
      filled in
  let with_hi :=
    <[1%nat := ascii_of_N
                 (N.land (N_of_ascii (uint8 (N.shiftr (port owner) 8))) 255)]>
      with_len in
  <[2%nat := uint8 (N.land (port owner) 255)]> with_hi.

(** The identity buffer as the specification words it, for comparison
    with [make_id_packet]: a length byte equal to the length of the uuid
    text, the text, the high byte of the port, the low byte. *)
Definition specified_id_packet (owner : basic_peer_manager) : list ascii :=
  let text := to_string (local_id (self owner)) in
  uint8 (N.of_nat (length text))
    :: text ++ [uint8 (N.shiftr (port owner) 8); uint8 (port owner)].

(** [basic_io_manager::port(unsigned short)]: rebuilds the identity packet
    and rebinds the acceptors. *)
Definition io_manager_port (owner : basic_peer_manager)
    (io : basic_io_manager) (p : N) : basic_io_manager :=
  mk_basic_io_manager p ((λ _, p) <$> m_acceptor_v4 io) (make_id_packet owner).

(** [keep_alive_impl]. *)
Definition keep_alive_impl (args : template_arguments)
    (owner : basic_peer_manager) : list io_action :=
  ((λ peers_pair : uuid * basic_peer,
      call_send keep_alive unused_param peers_pair.2)
     <$> map_to_list (deref owner (peers owner)))
  ++ [call_expires_from_now m_keepalive_dlt (keep_alive_send_millis args);
      call_async_wait m_keepalive_dlt keep_alive_impl_handler].

(** [timeout_impl]; [time_now] is the reading of the system clock. The
    result is [None] when the loop went through a null socket pointer. *)
Definition timeout_impl (args : template_arguments) (time_now : Z)
    (owner : basic_peer_manager) : option (list io_action) :=
  (λ closes,
     closes
     ++ [call_expires_from_now m_timeout_dlt (timeout_check_interval_millis args);
         call_async_wait m_timeout_dlt timeout_impl_handler])
    <$> close_timed_out args time_now (map_to_list (deref owner (peers owner))).

(** ** Running guard and port change *)

(** breep/util/exceptions.hpp is not among the sources. The effect of the
    expression statement [invalid_state("...")], written without [throw]
    in [require_non_running], is a parameter: [Throw] for a declaration
    that raises when evaluated, [Normal] for the exception class the
    [@throws] notes name, whose temporary is built and dropped. *)
Variable invalid_state : string → completion unit.

Definition require_non_running (pm : basic_peer_manager) : completion unit :=
  if m_running pm then invalid_state "Already running." else Normal tt.

(** [void port(unsigned short port)]; [p] ranges over the values of an
    [unsigned short]. *)
Definition port_assign (pm : basic_peer_manager) (p : N)
  : completion basic_peer_manager :=
  if bool_decide (m_port pm ≠ p) then
    require_non_running pm ;;;
    let pm1 := set_m_port p pm in
    Normal (set_m_manager (io_manager_port pm1 (m_manager pm1) p) pm1)
  else Normal pm.

(** [basic_io_manager::connect], declared in the header and defined in
    the absent impl file: the peer it returns when the dial and the
    handshake succeed. *)
Variable io_connect : N → N → option basic_peer.

(** Modelled from the spec: [peer_connected(P)] as direct adds P to the
    table (impl/basic_peer_manager.tcc is not among the sources). *)
Definition peer_connected (pm : basic_peer_manager) (p : basic_peer)
  : basic_peer_manager :=
  set_m_peers (<[id p := p]> (m_peers pm)) pm.




(** ** Listener registration *)

(** Modelled from the spec: [add_connection_listener] stores the callback
    under a fresh id taken from the counter [m_id_count]
    (impl/basic_peer_manager.tcc is not among the sources). *)
Definition add_connection_listener (pm : basic_peer_manager)
    (listener : connection_listener) : basic_peer_manager * listener_id :=
  (set_m_id_count (m_id_count pm + 1)
     (set_m_co_listener (<[m_id_count pm := listener]> (m_co_listener pm)) pm),
   m_id_count pm).

(** Modelled from the spec: [add_data_listener], as above on the data
    registry. *)
Definition add_data_listener (pm : basic_peer_manager)
    (listener : data_received_listener) : basic_peer_manager * listener_id :=
  (set_m_id_count (m_id_count pm + 1)
     (set_m_data_r_listener (<[m_id_count pm := listener]> (m_data_r_listener pm)) pm),
   m_id_count pm).

(** Modelled from the spec: [add_disconnection_listener], as above on the
    disconnection registry. *)
Definition add_disconnection_listener (pm : basic_peer_manager)
    (listener : disconnection_listener) : basic_peer_manager * listener_id :=
  (set_m_id_count (m_id_count pm + 1)
     (set_m_dc_listener (<[m_id_count pm := listener]> (m_dc_listener pm)) pm),
   m_id_count pm).

(** Modelled from the spec: [remove_connection_listener] erases the id and
    returns false if the id is unknown. *)
Definition remove_connection_listener (pm : basic_peer_manager)
    (i : listener_id) : basic_peer_manager * bool :=
  (set_m_co_listener (delete i (m_co_listener pm)) pm,
   bool_decide (is_Some (m_co_listener pm !! i))).

(** Modelled from the spec: [remove_data_listener]. *)
Definition remove_data_listener (pm : basic_peer_manager)
    (i : listener_id) : basic_peer_manager * bool :=
  (set_m_data_r_listener (delete i (m_data_r_listener pm)) pm,
   bool_decide (is_Some (m_data_r_listener pm !! i))).

(** Modelled from the spec: [remove_disconnection_listener]. *)
Definition remove_disconnection_listener (pm : basic_peer_manager)
    (i : listener_id) : basic_peer_manager * bool :=
  (set_m_dc_listener (delete i (m_dc_listener pm)) pm,
   bool_decide (is_Some (m_dc_listener pm !! i))).

(** [clear_data_listeners], [clear_connection_listeners],
    [clear_disconnection_listeners] and [clear_any], as in the header. *)
Definition clear_data_listeners (pm : basic_peer_manager) :=
  set_m_data_r_listener ∅ pm.
Definition clear_connection_listeners (pm : basic_peer_manager) :=
  set_m_co_listener ∅ pm.
Definition clear_disconnection_listeners (pm : basic_peer_manager) :=
  set_m_dc_listener ∅ pm.
Definition clear_any (pm : basic_peer_manager) :=
  clear_disconnection_listeners
    (clear_connection_listeners (clear_data_listeners pm)).

(** The calls an embedder can make on the three registries. *)
Inductive registry_call :=
  | do_add_connection_listener (l : connection_listener)
  | do_add_data_listener (l : data_received_listener)
  | do_add_disconnection_listener (l : disconnection_listener)
  | do_remove_connection_listener (i : listener_id)
  | do_remove_data_listener (i : listener_id)
  | do_remove_disconnection_listener (i : listener_id)
  | do_clear_data_listeners
  | do_clear_connection_listeners
  | do_clear_disconnection_listeners
  | do_clear_any.

(** One call: the manager after it and the id it hands out, if any. *)
Definition registry_step (pm : basic_peer_manager) (c : registry_call)
  : basic_peer_manager * option listener_id :=
  match c with
  | do_add_connection_listener l =>
      let '(pm', i) := add_connection_listener pm l in (pm', Some i)
  | do_add_data_listener l =>
      let '(pm', i) := add_data_listener pm l in (pm', Some i)
  | do_add_disconnection_listener l =>
      let '(pm', i) := add_disconnection_listener pm l in (pm', Some i)
  | do_remove_connection_listener i => ((remove_connection_listener pm i).1, None)
  | do_remove_data_listener i => ((remove_data_listener pm i).1, None)
  | do_remove_disconnection_listener i =>
      ((remove_disconnection_listener pm i).1, None)
  | do_clear_data_listeners => (clear_data_listeners pm, None)
  | do_clear_connection_listeners => (clear_connection_listeners pm, None)
  | do_clear_disconnection_listeners => (clear_disconnection_listeners pm, None)
  | do_clear_any => (clear_any pm, None)
  end.

(** A sequence of calls: the final manager and the ids handed out, oldest
    first. *)
Fixpoint registry_run (pm : basic_peer_manager) (cs : list registry_call)
  : basic_peer_manager * list listener_id :=
  match cs with
  | [] => (pm, [])
  | c :: cs' =>
      let '(pm1, handed) := registry_step pm c in
      let '(pm2, ids) := registry_run pm1 cs' in
      (pm2, option_list handed ++ ids)
  end.

End managers.
Arguments basic_peer_manager : clear implicits.
Arguments registry_call : clear implicits.

(** * Concrete inputs *)

(** A registry of callbacks named by numbers, reading numbers from a list
    used as archive; a moved-from callback is the empty one, [0]. *)
Module RegistryScenario.
Import ObjectBuilder.

Definition moved_from (l : nat) : nat := 0%nat.
Definition extract (a : list nat) : nat * list nat := (hd 0%nat a, tl a).

(** Listener [7] is registered under id [1]. *)
Definition registered : object_builder nat :=
  (add_listener 0 empty_builder 1 7%nat).1.

(** A first message is dispatched. *)
Definition first_dispatch : object_builder nat * dispatch nat nat (list nat) unit :=
  build_and_call moved_from extract registered tt [5%nat] false.

(** The listener is unregistered, and a second message is dispatched. *)
Definition unregistered : object_builder nat * bool :=
  remove_listener first_dispatch.1 1.

Definition second_dispatch : object_builder nat * dispatch nat nat (list nat) unit :=
  build_and_call moved_from extract unregistered.1 tt [6%nat] false.

End RegistryScenario.

(** A peer manager on the default port with its I/O manager, on a host
    where [make_little_endian] appends its input unchanged, with an
    [invalid_state] that raises when evaluated and a dial that fails. *)
Module ManagerScenario.

Definition copy_bytes (s out : list ascii) : list ascii := out ++ s.
Definition raising (what_arg : string) : completion unit :=
  Throw (thrown what_arg).

(** The other reading of [invalid_state("...")]: a temporary of the
    exception class is built and dropped. *)
Definition temporary (what_arg : string) : completion unit := Normal tt.

Definition local : local_peer :=
  mk_local_peer 0xaaaaaaaaaaaaaaaaaaaaaaaaaaaaaaaa.

(** A direct neighbour heard 1000 ms after the epoch. *)
Definition near_peer : basic_peer :=
  mk_basic_peer 0xbbbbbbbbbbbbbbbbbbbbbbbbbbbbbbbb 1 3480 true None 0
    (mk_io_manager_data (Some 1%nat) [] [] null_command 1000).

(** A peer known through [near_peer], with no socket of its own, created
    at the epoch. *)
Definition far_peer : basic_peer :=
  mk_basic_peer 0xcccccccccccccccccccccccccccccccc 2 3481 false
    (Some 0xbbbbbbbbbbbbbbbbbbbbbbbbbbbbbbbb) 1
    (mk_io_manager_data None [] [] null_command 0).

Definition stopped : basic_peer_manager unit unit unit :=
  mk_basic_peer_manager ∅ ∅ ∅ ∅ local (mk_basic_io_manager 3479 None [])
    0 3479 false.

Definition running : basic_peer_manager unit unit unit :=
  set_m_running true stopped.

Definition relayed : basic_peer_manager unit unit unit :=
  set_m_peers {[id far_peer := far_peer]} running.

(** A peer whose I/O record was built around socket [2] at 5000 ms. *)
Definition accepted_peer : basic_peer :=
  mk_basic_peer 0xdddddddddddddddddddddddddddddddd 3 3482 true None 0
    (new_io_manager_data 1024 (Some 2%nat) 5000).

Definition accepting : basic_peer_manager unit unit unit :=
  set_m_peers {[id accepted_peer := accepted_peer]} running.

(** A direct neighbour heard 195000 ms after the epoch, and a peer
    reached through it, whose I/O record was built by the default
    constructor at the epoch. *)
Definition bridge_peer : basic_peer :=
  mk_basic_peer 0xeeeeeeeeeeeeeeeeeeeeeeeeeeeeeeee 4 3483 true None 0
    (mk_io_manager_data (Some 3%nat) (replicate 1024 0) [] null_command 195000).

Definition bridged_peer : basic_peer :=
  mk_basic_peer 0xffffffffffffffffffffffffffffffff 5 3484 false
    (Some (id bridge_peer)) 1 (default_io_manager_data 1024 0).

Definition bridging : basic_peer_manager unit unit unit :=
  set_m_peers (<[id bridged_peer := bridged_peer]> {[id bridge_peer := bridge_peer]})
    running.

(** The running manager with [near_peer] as its only peer. *)
Definition neighbours : basic_peer_manager unit unit unit :=
  set_m_peers {[id near_peer := near_peer]} running.

End ManagerScenario.

(** * Properties of the data-listener registry *)

Section object_builder_facts.
Import ObjectBuilder.
Context {L T archive peer : Type}.
Variable moved_from : L → L.
Variable extract : archive → T * archive.

Implicit Types (ob : object_builder L) (i : listener_id).

Lemma last_snoc_inv {A} (v : list A) (b : A) :
  last v = Some b → ∃ front, v = front ++ [b].
Proof using Type.
  destruct v as [|a v] using rev_ind; [done|].
  rewrite last_snoc. intros [= ->]. by eexists.
Qed.

(** Overwriting a slot with the last element and dropping the last slot
    removes exactly the element that was in the slot. *)
Lemma swap_pop_Permutation {A} (v : list A) (n : nat) (x : A) :
  v !! n = Some x → v ≡ₚ x :: swap_pop n v.
Proof using Type.
  intros Hn. unfold swap_pop.
  destruct (last v) as [b|] eqn:Hlast.
  - destruct (last_snoc_inv _ _ Hlast) as [front ->].
    rewrite length_app. simpl.
    replace (pred (length front + 1)) with (length front) by lia.
    destruct (decide (n < length front)%nat) as [Hlt|Hge].
    + rewrite lookup_app_l in Hn by done.
      rewrite insert_app_l by done.
      rewrite take_app_length' by (by rewrite length_insert).
      rewrite <- (take_drop_middle front n x Hn) at 1.
      rewrite insert_take_drop by done.
      rewrite <- app_assoc. simpl.
      rewrite <- !Permutation_middle. constructor.
      by rewrite app_nil_r.
    + assert (n = length front) as ->.
      { apply lookup_lt_Some in Hn. rewrite length_app in Hn. simpl in Hn. lia. }
      rewrite list_lookup_middle in Hn by done. injection Hn as <-.
      rewrite insert_app_r_alt by lia. rewrite Nat.sub_diag. simpl.
      rewrite take_app_length.
      by rewrite <- Permutation_cons_append.
  - apply last_None in Hlast. by subst.
Qed.


(** The head of [build_and_call] leaves the ids of both vectors as they
    were. *)
Lemma drained_queues ob :
  (m_to_add (drained moved_from ob)).*1 = (m_to_add ob).*1
  ∧ m_to_remove (drained moved_from ob) = m_to_remove ob.
Proof using Type.
  split; [|done]. simpl. rewrite <- list_fmap_compose.
  apply list_fmap_ext. by intros ? [??].
Qed.

(** Registering and unregistering only touch the vectors. *)
Lemma add_listener_live hash_code ob i (l : L) :
  m_listeners (add_listener hash_code ob i l).1 = m_listeners ob.
Proof using Type. done. Qed.

Lemma remove_listener_live ob i :
  m_listeners (remove_listener ob i).1 = m_listeners ob.
Proof using Type.
  unfold remove_listener. repeat case_bool_decide; try done.
  by destruct (list_find _ _) as [[??]|].
Qed.




(** C10. After the deferred queues are applied, [build_and_call] on an
    empty live map returns false, leaves the archive as it was and calls
    nobody; on a non-empty live map it reads one object from the archive,
    calls each live listener exactly once with a wrapper holding that
    object and the listener's own id, and returns true. *)
Theorem build_and_call_result ob (received_from : peer) (input : archive)
    (priv : bool) :
  let result := build_and_call moved_from extract ob received_from input priv in
  let live := m_listeners result.1 in
  let d := result.2 in
  let object := (extract input).1 in
  live = apply_queues ob
  ∧ (live = ∅ →
     returned d = false ∧ archive_after d = input ∧ calls d = [])
  ∧ (live ≠ ∅ →
     returned d = true
     ∧ archive_after d = (extract input).2
     ∧ (λ c, (wrapper_listener_id c.2, c.1)) <$> calls d ≡ₚ map_to_list live
     ∧ NoDup ((λ c, wrapper_listener_id c.2) <$> calls d)
     ∧ (∀ i (l : L),
          live !! i = Some l
          ↔ (l, mk_wrapper received_from object priv i) ∈ calls d)
     ∧ Forall (λ c, data c.2 = object ∧ source c.2 = received_from
                    ∧ is_private c.2 = priv) (calls d)).
Proof using Type.
  intros result live d object. subst result live d object.
  unfold build_and_call.
  destruct (extract input) as [object rest] eqn:Hextract.
  case_bool_decide as Hempty; simpl in *.
  - split_and!; [done|done|by intros []].
  - split_and!; [done|by intros ?|]. intros _.
    set (live := apply_queues ob).
    assert ((λ c : L * basic_netdata_wrapper T peer, (wrapper_listener_id c.2, c.1))
              <$> (call_listener received_from object priv <$> map_to_list live)
            = map_to_list live) as Hids.
    { rewrite <- list_fmap_compose. rewrite <- (list_fmap_id (map_to_list live)) at 2.
      apply list_fmap_ext. by intros ? [??]. }
    split_and!; try done.
    + by rewrite Hids.
    + replace (λ c : L * basic_netdata_wrapper T peer, wrapper_listener_id c.2)
        with (fst ∘ (λ c : L * basic_netdata_wrapper T peer,
                       (wrapper_listener_id c.2, c.1))) by done.
      rewrite list_fmap_compose, Hids. apply NoDup_fst_map_to_list.
    + intros i l. rewrite <- elem_of_map_to_list. split.
      * intros Hin. apply list_elem_of_fmap. by exists (i, l).
      * intros ([j l'] & [= -> ->] & Hin)%list_elem_of_fmap. done.
    + apply Forall_fmap, Forall_forall. by intros [??] _.
Qed.

End object_builder_facts.

(** C10, at a registry with one pending listener and an archive holding
    the numbers 5 and 6. *)
Lemma build_and_call_result_witness :
  let result :=
    ObjectBuilder.build_and_call RegistryScenario.moved_from RegistryScenario.extract
      RegistryScenario.registered tt [5; 6]%nat true in
  ObjectBuilder.returned result.2 = true
  ∧ ObjectBuilder.archive_after result.2 = [6%nat]
  ∧ ObjectBuilder.calls result.2 = [(7%nat, ObjectBuilder.mk_wrapper tt 5%nat true 1)].
Proof.
  pose proof (build_and_call_result RegistryScenario.moved_from
                RegistryScenario.extract RegistryScenario.registered tt
                [5; 6]%nat true) as (_ & _ & Hcalls).
  split_and!; [|reflexivity..].
  apply Hcalls.
  intros Hempty. apply (f_equal (λ m, m !! 1)) in Hempty.
  vm_compute in Hempty. discriminate.
Defined.

(** C2. Registering a listener, dispatching, unregistering it and
    dispatching again: each dispatch applies the queues to the live map,
    and neither leaves them empty. After the first dispatch the to-add
    vector still holds id [1]; after the second, with the listener gone
    from the live map, both vectors still hold id [1], and a further
    [remove_listener] on id [1] finds the stale to-add entry and returns
    true. *)
Theorem build_and_call_keeps_queues :
  let after_first := RegistryScenario.first_dispatch.1 in
  let after_second := RegistryScenario.second_dispatch.1 in
  ObjectBuilder.m_listeners after_first = {[1 := 7%nat]}
  ∧ ObjectBuilder.m_to_add after_first = [(1, 0%nat)]
  ∧ RegistryScenario.unregistered.2 = true
  ∧ ObjectBuilder.m_listeners after_second = ∅
  ∧ ObjectBuilder.m_to_add after_second = [(1, 0%nat)]
  ∧ ObjectBuilder.m_to_remove after_second = [1]
  ∧ (ObjectBuilder.remove_listener after_second 1).2 = true.
Proof. split_and!; reflexivity. Qed.



(** * Properties of the configuration defaults *)

(** C8. Default listening port 3479; [tcp::io_manager] reads 1024 bytes at
    a time, sends keep-alives every 5000 ms, times a peer out after
    120000 ms and checks every 24000 ms; whenever the check interval is
    left out it is the timeout divided by 5. *)
Theorem configuration_defaults :
  default_port = 3479
  ∧ constructor_port None = 3479
  ∧ BUFFER_LENGTH io_manager = 1024
  ∧ keep_alive_send_millis io_manager = 5000
  ∧ timeout_millis io_manager = 120000
  ∧ timeout_check_interval_millis io_manager = 24000
  ∧ (∀ buffer_length keep_alive_arg timeout_arg,
       let args := basic_io_manager_template buffer_length keep_alive_arg
                     timeout_arg None in
       timeout_check_interval_millis args = timeout_millis args `div` 5).
Proof. split_and!; reflexivity. Qed.

(** * Properties of the peer manager and of the TCP I/O manager *)

Section managers_facts.
Context {connection_listener data_received_listener disconnection_listener : Type}.
Variable make_little_endian : list ascii → list ascii → list ascii.
Variable invalid_state : string → completion unit.
Variable io_connect : N → N → option basic_peer.

Local Abbreviation manager :=
  (basic_peer_manager connection_listener data_received_listener
     disconnection_listener).
Implicit Types (pm owner : manager).

(** ** Running guard *)




(** ** The peer-table accessor *)

(** C6, amended. [peers()] hands out the table member itself: what the
    embedder reads through the value it obtained is the table of the
    manager as it is when read, so a peer connected after the accessor
    returned is seen through it. *)
Theorem peers_is_live_reference pm :
  (∀ later : manager, deref later (peers pm) = m_peers later)
  ∧ (∀ new_peer : basic_peer,
       deref (peer_connected pm new_peer) (peers pm) !! id new_peer
       = Some new_peer).
Proof using Type.
  split; [done|]. intros new_peer. simpl. apply lookup_insert_eq.
Qed.

(** ** Listener ids *)

Lemma registry_step_count pm (c : registry_call connection_listener
                                   data_received_listener disconnection_listener) :
  let '(pm', handed) := registry_step pm c in
  match handed with
  | Some i => i = m_id_count pm ∧ m_id_count pm' = m_id_count pm + 1
  | None => m_id_count pm' = m_id_count pm
  end.
Proof using Type. by destruct c. Qed.

(** The ids handed out by a sequence of calls are the successive values of
    the counter. *)
Lemma registry_run_ids pm cs :
  let ids := (registry_run pm cs).2 in
  ids = (λ k, m_id_count pm + N.of_nat k) <$> seq 0 (length ids)
  ∧ m_id_count (registry_run pm cs).1 = m_id_count pm + N.of_nat (length ids).
Proof using Type.
  revert pm. induction cs as [|c cs IH]; intros pm; simpl.
  - split; [done|]. lia.
  - pose proof (registry_step_count pm c) as Hstep.
    destruct (registry_step pm c) as [pm1 handed].
    specialize (IH pm1).
    destruct (registry_run pm1 cs) as [pm2 ids]. simpl in *.
    destruct IH as [Hids Hcount].
    destruct handed as [i|]; simpl.
    + destruct Hstep as [-> Hnext]. rewrite Hnext in Hids, Hcount.
      split; [|lia].
      f_equal; [f_equal; lia|].
      rewrite <- seq_shift, <- list_fmap_compose.
      rewrite Hids at 1. apply list_fmap_ext. intros _ k _. simpl. lia.
    + rewrite Hstep in Hids, Hcount. done.
Qed.

(** C9. Whatever calls are made on the three registries, every id handed
    out by an [add_*_listener] is the value of the one counter
    [m_id_count] at that call, the counter grows by one at each of them,
    and no two ids handed out are equal. *)
Theorem listener_ids_unique pm cs :
  let ids := (registry_run pm cs).2 in
  NoDup ids
  ∧ ids = (λ k, m_id_count pm + N.of_nat k) <$> seq 0 (length ids)
  ∧ m_id_count (registry_run pm cs).1 = m_id_count pm + N.of_nat (length ids).
Proof using Type.
  intros ids. destruct (registry_run_ids pm cs) as [Hids Hcount].
  fold ids in Hids, Hcount. split_and!; try done.
  rewrite Hids. apply NoDup_fmap_2; [|apply NoDup_seq].
  intros j k ?. lia.
Qed.

(** ** The identity packet *)

Lemma to_string_length (u : uuid) : length (to_string u) = 36%nat.
Proof. reflexivity. Qed.

Lemma uint8_land_255 (n : N) : uint8 (N.land n 255) = uint8 n.
Proof.
  unfold uint8. change 255 with (N.ones 8). rewrite N.land_ones.
  change (2 ^ 8) with 256. by rewrite N.Div0.mod_mod.
Qed.

Lemma uint8_high_byte (n : N) :
  ascii_of_N (N.land (N_of_ascii (uint8 (N.shiftr n 8))) 255)
  = uint8 (n `div` 256).
Proof.
  unfold uint8 at 1. rewrite N_ascii_embedding by (apply N.mod_lt; lia).
  change 255 with (N.ones 8). rewrite N.land_ones.
  change (2 ^ 8) with 256. rewrite N.Div0.mod_mod.
  rewrite N.shiftr_div_pow2. done.
Qed.

(** C3, amended. When [make_little_endian] appends as many bytes as the
    text has, the identity buffer is a length byte, the high byte of the
    port, the low byte of the port, and then the 36 bytes appended for the
    uuid text; the length byte is 38, the number of bytes that follow it. *)
Theorem make_id_packet_layout owner :
  (∀ s out, ∃ t, make_little_endian s out = out ++ t ∧ length t = length s) →
  ∃ text,
    make_little_endian (to_string (local_id (self owner))) [zero; zero; zero]
    = [zero; zero; zero] ++ text
    ∧ length text = 36%nat
    ∧ make_id_packet make_little_endian owner
      = uint8 38 :: uint8 (port owner `div` 256) :: uint8 (port owner) :: text
    ∧ N_of_ascii (uint8 38) = N.of_nat (length text) + 2.
Proof using Type.
  intros Happends. unfold make_id_packet.
  destruct (Happends (to_string (local_id (self owner))) [zero; zero; zero])
    as (text & Hfilled & Hlen).
  rewrite to_string_length in Hlen.
  exists text. split_and!; [done|done| |by rewrite Hlen].
  change (resize 3 zero []) with [zero; zero; zero]. rewrite Hfilled.
  rewrite length_app, Hlen. simpl.
  by rewrite uint8_high_byte, uint8_land_255.
Qed.

(** ** Keep-alive and timeout handlers *)

Lemma chrono_milliseconds_small (n : N) :
  n < 2 ^ 63 → chrono_milliseconds n = Z.of_N n.
Proof.
  intros Hn. unfold chrono_milliseconds.
  assert (0 ≤ Z.of_N n < 2 ^ 63)%Z as Hz by lia.
  rewrite Z.mod_small by lia.
  destruct (Z.ltb_spec (Z.of_N n) (2 ^ 63)); [done|lia].
Qed.

(** C4, amended. Each run of the keep-alive handler issues one [send] of
    a [keep_alive] frame with empty payload per entry of the peer table,
    direct or not, issues no other [send], and re-arms its timer with
    [keep_alive_send_millis]. *)
Theorem keep_alive_impl_sends args owner :
  ∃ sends,
    keep_alive_impl args owner
    = sends ++ [call_expires_from_now m_keepalive_dlt (keep_alive_send_millis args);
                call_async_wait m_keepalive_dlt keep_alive_impl_handler]
    ∧ sends = (λ kp : uuid * basic_peer, call_send keep_alive [] kp.2)
                <$> map_to_list (m_peers owner)
    ∧ (∀ command payload target,
         call_send command payload target ∈ keep_alive_impl args owner
         ↔ command = keep_alive ∧ payload = []
           ∧ ∃ k, m_peers owner !! k = Some target).
Proof using Type.
  eexists. split_and!; [done|done|].
  intros command payload target. unfold keep_alive_impl. simpl.
  rewrite elem_of_app, list_elem_of_fmap. split.
  - intros [([k p] & [= -> -> ->] & Hin%elem_of_map_to_list)|Hin].
    + split_and!; [done|done|by exists k].
    + apply elem_of_cons in Hin as [?|Hin]; [done|].
      by apply list_elem_of_singleton in Hin.
  - intros (-> & -> & k & Hk). left. exists (k, target).
    split; [done|]. by apply elem_of_map_to_list.
Qed.

(** The loop of the timeout handler when it runs to its end: only [close]
    calls, one for each entry that timed out. *)
Lemma close_timed_out_Some args (time_now : Z)
    (entries : list (uuid * basic_peer)) closes :
  close_timed_out args time_now entries = Some closes →
  Forall (λ a, ∃ target, a = call_socket_close target) closes
  ∧ ∀ target,
      call_socket_close target ∈ closes
      ↔ ∃ k, (k, target) ∈ entries ∧ timed_out args time_now target = true.
Proof using Type.
  revert closes. induction entries as [|[k p] entries IH]; intros closes; simpl.
  - intros [= <-]. split; [constructor|]. intros target. split.
    + by intros ?%elem_of_nil.
    + by intros (? & ?%elem_of_nil & _).
  - destruct (timed_out args time_now p) eqn:Htimed.
    + destruct (socket (io_data p)); [|done].
      destruct (close_timed_out args time_now entries) as [closes'|]; [|done].
      intros [= <-]. destruct (IH closes' eq_refl) as [Hshape Hiff].
      split; [constructor; [by eexists|done]|].
      intros target. rewrite elem_of_cons, Hiff. split.
      * intros [[= ->]|(k' & Hin & Ht)].
        -- exists k. split; [by left|done].
        -- exists k'. split; [by right|done].
      * intros (k' & [[= -> ->]|Hin]%elem_of_cons & Ht); [by left|].
        right. by exists k'.
    + intros Hrest. destruct (IH closes Hrest) as [Hshape Hiff].
      split; [done|]. intros target. rewrite Hiff. split.
      * intros (k' & Hin & Ht). exists k'. split; [by right|done].
      * intros (k' & [[= -> ->]|Hin]%elem_of_cons & Ht); [congruence|].
        by exists k'.
Qed.

(** The loop has no result exactly when an entry that timed out has a null
    socket pointer. *)
Lemma close_timed_out_None args (time_now : Z)
    (entries : list (uuid * basic_peer)) :
  close_timed_out args time_now entries = None
  ↔ ∃ k p, (k, p) ∈ entries ∧ timed_out args time_now p = true
           ∧ socket (io_data p) = None.
Proof using Type.
  induction entries as [|[k p] entries IH]; simpl.
  - split; [done|]. by intros (? & ? & ?%elem_of_nil & _).
  - destruct (timed_out args time_now p) eqn:Htimed.
    + destruct (socket (io_data p)) as [sock|] eqn:Hsock.
      * rewrite fmap_None, IH. split.
        -- intros (k' & p' & Hin & Ht & Hs). exists k', p'.
           split; [by right|done].
        -- intros (k' & p' & [[= -> ->]|Hin]%elem_of_cons & Ht & Hs);
             [congruence|]. by exists k', p'.
      * split; [|done]. intros _. exists k, p. split; [by left|done].
    + rewrite IH. split.
      * intros (k' & p' & Hin & Ht & Hs). exists k', p'.
        split; [by right|done].
      * intros (k' & p' & [[= -> ->]|Hin]%elem_of_cons & Ht & Hs);
          [congruence|]. by exists k', p'.
Qed.

(** A timeout handler that ran to its end issued [close] on the socket of
    exactly the peers of the table that timed out, and then re-armed its
    timer. *)
Lemma timeout_impl_Some args (time_now : Z) owner acts :
  timeout_impl args time_now owner = Some acts →
  ∃ closes,
    acts = closes ++ [call_expires_from_now m_timeout_dlt
                        (timeout_check_interval_millis args);
                      call_async_wait m_timeout_dlt timeout_impl_handler]
    ∧ Forall (λ a, ∃ target, a = call_socket_close target) closes
    ∧ (∀ target,
         call_socket_close target ∈ acts
         ↔ (∃ k, m_peers owner !! k = Some target)
           ∧ timed_out args time_now target = true).
Proof using Type.
  unfold timeout_impl. simpl.
  destruct (close_timed_out args time_now (map_to_list (m_peers owner)))
    as [closes|] eqn:Hloop; [|done].
  intros [= <-]. destruct (close_timed_out_Some _ _ _ _ Hloop) as [Hshape Hiff].
  exists closes. split_and!; [done|done|].
  intros target. rewrite elem_of_app, Hiff. split.
  - intros [(k & Hin%elem_of_map_to_list & Ht)|Hin]; [split; [by exists k|done]|].
    apply elem_of_cons in Hin as [?|Hin]; [done|].
    by apply list_elem_of_singleton in Hin.
  - intros [[k Hk] Ht]. left. exists k. split; [|done].
    by apply elem_of_map_to_list.
Qed.

(** The timeout handler has no result exactly when a peer of the table
    that timed out has a null socket pointer. *)
Lemma timeout_impl_None args (time_now : Z) owner :
  timeout_impl args time_now owner = None
  ↔ ∃ k p, m_peers owner !! k = Some p ∧ timed_out args time_now p = true
           ∧ socket (io_data p) = None.
Proof using Type.
  unfold timeout_impl. simpl. rewrite fmap_None, close_timed_out_None.
  split; intros (k & p & Hin & Ht & Hs); exists k, p; split_and!; try done.
  - by apply elem_of_map_to_list.
  - by apply elem_of_map_to_list.
Qed.

Lemma timed_out_small args (time_now : Z) (p : basic_peer) :
  timeout_millis args < 2 ^ 63 →
  timed_out args time_now p = true
  ↔ (Z.of_N (timeout_millis args) < time_now - timestamp (io_data p))%Z.
Proof using Type.
  intros Hsmall. unfold timed_out.
  rewrite (chrono_milliseconds_small _ Hsmall). apply Z.ltb_lt.
Qed.

End managers_facts.

(** * The amended claims at concrete inputs, and the inputs that refute the
      claims as worded *)



(** The statement [invalid_state("Already running.");] has no [throw]:
    with [invalid_state] the exception class that the [@throws] notes of
    the header name, it only builds a temporary, and [port(3480)] on the
    running manager goes on to rebind. *)
Lemma port_assign_temporary :
  ∃ rebound,
    port_assign ManagerScenario.copy_bytes ManagerScenario.temporary
      ManagerScenario.running 3480 = Normal rebound
    ∧ m_port rebound = 3480 ∧ m_running rebound = true
    ∧ m_acceptor (m_manager rebound) = 3480.
Proof. eexists. split_and!; reflexivity. Qed.

(** C3 as worded fails: for the uuid aaaaaaaa-aaaa-aaaa-aaaa-aaaaaaaaaaaa
    and port 3479 = 0x0D97 the buffer built is 38, 0x0D, 0x97 and then the
    text, whereas the worded layout is 36, the text, 0x0D, 0x97. Whatever
    [make_little_endian] does, the second byte written is the high byte of
    the port, so the buffer never has the worded layout. *)
Lemma make_id_packet_not_as_specified :
  make_id_packet ManagerScenario.copy_bytes ManagerScenario.stopped
  = uint8 38 :: uint8 13 :: uint8 151
      :: list_ascii_of_string "aaaaaaaa-aaaa-aaaa-aaaa-aaaaaaaaaaaa"
  ∧ specified_id_packet ManagerScenario.stopped
    = uint8 36 :: list_ascii_of_string "aaaaaaaa-aaaa-aaaa-aaaa-aaaaaaaaaaaa"
        ++ [uint8 13; uint8 151]
  ∧ make_id_packet ManagerScenario.copy_bytes ManagerScenario.stopped
    ≠ specified_id_packet ManagerScenario.stopped
  ∧ ¬ (∃ make_little_endian,
         make_id_packet make_little_endian ManagerScenario.stopped
         = specified_id_packet ManagerScenario.stopped).
Proof.
  split_and!; [reflexivity|reflexivity|by vm_compute|].
  intros [make_little_endian Heq].
  apply (f_equal (λ packet, packet !! 1%nat)) in Heq.
  unfold make_id_packet in Heq.
  set (filled := make_little_endian _ _) in Heq.
  rewrite list_lookup_insert_ne in Heq by done.
  destruct (decide (1 < length filled)%nat) as [Hlong|Hshort].
  - rewrite list_lookup_insert_eq in Heq by (by rewrite length_insert).
    vm_compute in Heq. discriminate.
  - rewrite lookup_ge_None_2 in Heq by (rewrite !length_insert; lia).
    vm_compute in Heq. discriminate.
Qed.

(** C3, amended, on a host where [make_little_endian] copies. *)
Lemma make_id_packet_layout_witness :
  ∃ text,
    ManagerScenario.copy_bytes
      (to_string (local_id (self ManagerScenario.stopped))) [zero; zero; zero]
    = [zero; zero; zero] ++ text
    ∧ length text = 36%nat
    ∧ make_id_packet ManagerScenario.copy_bytes ManagerScenario.stopped
      = uint8 38 :: uint8 (port ManagerScenario.stopped `div` 256)
          :: uint8 (port ManagerScenario.stopped) :: text
    ∧ N_of_ascii (uint8 38) = N.of_nat (length text) + 2.
Proof.
  apply (make_id_packet_layout ManagerScenario.copy_bytes ManagerScenario.stopped).
  intros s out. exists s. split; reflexivity.
Defined.

(** C4 as worded fails: with only a relayed peer in the table, the
    keep-alive handler still issues a [send] to it. *)
Lemma keep_alive_impl_reaches_indirect :
  is_directly_connected ManagerScenario.far_peer = false
  ∧ call_send keep_alive unused_param ManagerScenario.far_peer
    ∈ keep_alive_impl io_manager ManagerScenario.relayed.
Proof. split; [reflexivity|]. vm_compute. constructor. Qed.

(** C5. The claim has the scan leave alone every peer that is not a
    direct neighbour. On a table with a direct neighbour heard 5 s ago and
    a peer reached through it, whose I/O record the default constructor
    built at the epoch with a null socket pointer, the timeout handler 200 s
    after the epoch tests the relayed peer as well, finds it timed out and
    calls [close] through the null pointer: it has no defined result. *)
Theorem timeout_impl_null_socket :
  m_peers ManagerScenario.bridging !! id ManagerScenario.bridged_peer
  = Some ManagerScenario.bridged_peer
  ∧ is_directly_connected ManagerScenario.bridged_peer = false
  ∧ bridge ManagerScenario.bridged_peer = Some (id ManagerScenario.bridge_peer)
  ∧ io_data ManagerScenario.bridged_peer = default_io_manager_data 1024 0
  ∧ socket (io_data ManagerScenario.bridged_peer) = None
  ∧ timed_out io_manager 200000 ManagerScenario.bridge_peer = false
  ∧ timed_out io_manager 200000 ManagerScenario.bridged_peer = true
  ∧ timeout_impl io_manager 200000 ManagerScenario.bridging = None.
Proof. split_and!; reflexivity. Qed.

(** C6 as worded fails: the value [peers()] returned on a manager with an
    empty table shows, once a peer has connected, a table that holds it. *)
Lemma peers_not_a_snapshot :
  deref (peer_connected ManagerScenario.stopped ManagerScenario.near_peer)
        (peers ManagerScenario.stopped)
  ≠ deref ManagerScenario.stopped (peers ManagerScenario.stopped).
Proof.
  intros Heq.
  apply (f_equal (λ m, m !! id ManagerScenario.near_peer)) in Heq.
  vm_compute in Heq. discriminate.
Qed.

(** * Further properties of the data-listener registry *)

Section object_builder_more.
Import ObjectBuilder.
Context {L T archive peer : Type}.
Variable moved_from : L → L.
Variable extract : archive → T * archive.
Variable hash_code : N.

Implicit Types (ob : object_builder L) (i j : listener_id).

Lemma emplace_union (m : gmap listener_id L) (pair : listener_id * L) :
  emplace m pair = m ∪ {[pair.1 := pair.2]}.
Proof using Type.
  unfold emplace. destruct (m !! pair.1) as [l|] eqn:Hlookup.
  - apply map_eq. intros j. rewrite lookup_union.
    destruct (decide (j = pair.1)) as [->|Hne].
    + rewrite Hlookup, lookup_singleton_eq. done.
    + rewrite lookup_singleton_ne by done. by destruct (m !! j).
  - by apply insert_union_singleton_r.
Qed.

(** The first loop of [build_and_call]: the live map wins over the pending
    entries, and among pending entries of one id the earliest wins. *)
Lemma foldl_emplace (m : gmap listener_id L) (v : list (listener_id * L)) :
  foldl emplace m v = m ∪ list_to_map v.
Proof using Type.
  revert m. induction v as [|pair v IH]; intros m; simpl.
  - by rewrite (right_id_L ∅ (∪)).
  - rewrite IH, emplace_union, insert_union_singleton_l.
    by rewrite (assoc_L (∪)).
Qed.

(** The second loop of [build_and_call]. *)
Lemma foldl_erase_lookup (m : gmap listener_id L) (v : list listener_id) i :
  foldl erase m v !! i = if bool_decide (i ∈ v) then None else m !! i.
Proof using Type.
  revert m. induction v as [|k v IH]; intros m; simpl.
  - done.
  - rewrite IH. unfold erase.
    rewrite (bool_decide_ext _ _ (elem_of_cons v i k)).
    destruct (decide (i = k)) as [->|Hne].
    + rewrite lookup_delete_eq.
      rewrite (bool_decide_eq_true_2 (k = k ∨ k ∈ v)) by auto.
      by destruct (bool_decide (k ∈ v)).
    + rewrite lookup_delete_ne by done.
      by rewrite (bool_decide_ext (i = k ∨ i ∈ v) (i ∈ v)) by tauto.
Qed.

(** The live map at the next dispatch, by lookup. *)
Lemma apply_queues_union ob i :
  apply_queues ob !! i
  = if bool_decide (i ∈ m_to_remove ob) then None
    else (m_listeners ob ∪ list_to_map (m_to_add ob)) !! i.
Proof using Type.
  unfold apply_queues. by rewrite foldl_erase_lookup, foldl_emplace.
Qed.

Lemma build_and_call_live ob (received_from : peer) (input : archive)
    (priv : bool) :
  m_listeners (build_and_call moved_from extract ob received_from input priv).1
  = apply_queues ob.
Proof using Type.
  unfold build_and_call. case_bool_decide; [done|]. by destruct (extract input).
Qed.

(** The pending entry that [emplace] keeps for an id is the earliest. *)
Lemma list_to_map_earliest (v : list (listener_id * L)) i :
  (list_to_map v : gmap listener_id L) !! i
  = (λ found : nat * (listener_id * L), found.2.2)
      <$> list_find (λ l_it : listener_id * L, l_it.1 = i) v.
Proof using Type.
  induction v as [|[k l] v IH]; [done|].
  rewrite list_to_map_cons. simpl. case_decide as Hk; simpl in Hk.
  - subst k. by rewrite lookup_insert_eq.
  - rewrite lookup_insert_ne by done. rewrite IH.
    by destruct (list_find _ v) as [[??]|].
Qed.

(** X1. At a dispatch boundary an id scheduled for removal is not live;
    any other id keeps the callback it has in the live map, and an id that
    is not live yet gets the callback of its earliest pending entry. *)
Theorem build_and_call_live_lookup ob (received_from : peer)
    (input : archive) (priv : bool) i :
  m_listeners (build_and_call moved_from extract ob received_from input priv).1
    !! i
  = if bool_decide (i ∈ m_to_remove ob) then None
    else match m_listeners ob !! i with
         | Some l => Some l
         | None =>
             (λ found : nat * (listener_id * L), found.2.2)
               <$> list_find (λ l_it : listener_id * L, l_it.1 = i) (m_to_add ob)
         end.
Proof using Type.
  rewrite build_and_call_live, apply_queues_union.
  case_bool_decide; [done|].
  rewrite lookup_union, list_to_map_earliest.
  destruct (m_listeners ob !! i); [|by rewrite (left_id_L None (∪))].
  by destruct (list_find _ _).
Qed.

(** X2. A listener whose id is in the to-remove vector is not called by
    the dispatch, even when it is live or pending. *)
Theorem scheduled_listener_not_called ob (received_from : peer)
    (input : archive) (priv : bool) i :
  i ∈ m_to_remove ob →
  let result := build_and_call moved_from extract ob received_from input priv in
  m_listeners result.1 !! i = None
  ∧ ∀ c, c ∈ calls result.2 → wrapper_listener_id c.2 ≠ i.
Proof using Type.
  intros Hscheduled result.
  assert (apply_queues ob !! i = None) as Hgone.
  { rewrite apply_queues_union. by rewrite bool_decide_eq_true_2. }
  split; [subst result; by rewrite build_and_call_live|].
  subst result. unfold build_and_call.
  case_bool_decide; [by intros c ?%elem_of_nil|].
  destruct (extract input) as [object rest]. simpl.
  intros c ([k l] & -> & Hin%elem_of_map_to_list)%list_elem_of_fmap. simpl.
  intros ->. congruence.
Qed.

(** X3. A listener registered under an id that is neither live, pending
    nor scheduled for removal is live at the next dispatch, which returns
    true and calls it with its own id. *)
Theorem added_listener_called ob (received_from : peer) (input : archive)
    (priv : bool) i (l : L) :
  m_listeners ob !! i = None →
  i ∉ (m_to_add ob).*1 →
  i ∉ m_to_remove ob →
  let result :=
    build_and_call moved_from extract (add_listener hash_code ob i l).1
      received_from input priv in
  m_listeners result.1 !! i = Some l
  ∧ returned result.2 = true
  ∧ (l, mk_wrapper received_from (extract input).1 priv i) ∈ calls result.2.
Proof using Type.
  intros Hlive Hpending Hscheduled result.
  assert (apply_queues (add_listener hash_code ob i l).1 !! i = Some l) as Hin.
  { rewrite apply_queues_union. simpl.
    rewrite bool_decide_eq_false_2 by done.
    rewrite lookup_union_r by done.
    rewrite list_to_map_snoc by done. apply lookup_insert_eq. }
  split; [subst result; by rewrite build_and_call_live|].
  subst result. unfold build_and_call.
  case_bool_decide as Hempty.
  { simpl in Hempty. unfold add_listener in Hin. simpl in Hin.
    rewrite Hempty, lookup_empty in Hin. done. }
  destruct (extract input) as [object rest]. simpl. split; [done|].
  apply list_elem_of_fmap. exists (i, l). split; [done|].
  by apply elem_of_map_to_list.
Qed.

(** X4. Registering a listener under an id that is neither live nor
    pending and unregistering it before any dispatch returns true and
    leaves the registry exactly as it was. *)
Theorem add_then_remove ob i (l : L) :
  m_listeners ob !! i = None →
  i ∉ (m_to_add ob).*1 →
  remove_listener (add_listener hash_code ob i l).1 i = (ob, true).
Proof using Type.
  intros Hlive Hpending. unfold remove_listener, add_listener. simpl.
  rewrite bool_decide_eq_false_2 by (rewrite Hlive; by intros [??]).
  assert (list_find (λ l_it : listener_id * L, l_it.1 = i) (m_to_add ob) = None)
    as Hnone.
  { apply list_find_None, Forall_forall. intros [k l'] Hin Hk. simpl in Hk.
    subst k. apply Hpending, list_elem_of_fmap. by exists (i, l'). }
  rewrite (list_find_app_r _ _ _ Hnone). simpl.
  rewrite decide_True by done. simpl.
  unfold swap_pop. rewrite last_snoc, length_app. simpl.
  rewrite list_insert_id by (by rewrite list_lookup_middle).
  replace (pred (length (m_to_add ob) + 1)) with (length (m_to_add ob)) by lia.
  rewrite take_app_length. by destruct ob.
Qed.

(** X5. The entries that stay in the two vectors do not change what a
    later dispatch sees: with no call in between, a second dispatch has
    the same live map as the first. *)
Theorem second_dispatch_same_live ob (p1 p2 : peer) (a1 a2 : archive)
    (b1 b2 : bool) :
  let first := build_and_call moved_from extract ob p1 a1 b1 in
  m_listeners (build_and_call moved_from extract first.1 p2 a2 b2).1
  = m_listeners first.1.
Proof using Type.
  intros first. subst first. rewrite !build_and_call_live.
  assert ((build_and_call moved_from extract ob p1 a1 b1).1 = drained moved_from ob)
    as ->.
  { unfold build_and_call. case_bool_decide; [done|]. by destruct (extract a1). }
  apply map_eq. intros i.
  rewrite (apply_queues_union (drained moved_from ob)). simpl.
  pose proof (apply_queues_union ob i) as Hfirst.
  case_bool_decide as Hscheduled; [done|].
  rewrite lookup_union, list_to_map_fmap, lookup_fmap.
  destruct (apply_queues ob !! i) as [l|] eqn:Hlive.
  - by destruct (list_to_map (m_to_add ob) !! i).
  - symmetry in Hfirst. by apply lookup_union_None in Hfirst as [_ ->].
Qed.

Lemma remove_listener_cases ob i :
  (remove_listener ob i = (ob, false))
  ∨ (is_Some (m_listeners ob !! i) ∧ (i ∉ m_to_remove ob)
     ∧ remove_listener ob i
       = (mk_object_builder (m_listeners ob) (m_to_add ob) (m_to_remove ob ++ [i]),
          true))
  ∨ (m_listeners ob !! i = None
     ∧ ∃ n (l : L),
         m_to_add ob !! n = Some (i, l)
         ∧ remove_listener ob i
           = (mk_object_builder (m_listeners ob) (swap_pop n (m_to_add ob))
                (m_to_remove ob), true)).
Proof using Type.
  unfold remove_listener.
  case_bool_decide as Hlive; [case_bool_decide as Hscheduled|].
  - by left.
  - right. by left.
  - destruct (list_find _ _) as [[n [k l]]|] eqn:Hfind; [|by left].
    apply list_find_Some in Hfind as (Hn & Hk & _). simpl in Hk. subst k.
    right. right. split; [by apply eq_None_not_Some|]. by exists n, l.
Qed.

(** With distinct pending ids, the entry taken out of the to-add vector is
    the only one of its id. *)
Lemma swap_pop_keys (v : list (listener_id * L)) (n : nat) i (l : L) :
  NoDup v.*1 → v !! n = Some (i, l) →
  (i ∉ (swap_pop n v).*1)
  ∧ NoDup (swap_pop n v).*1
  ∧ (list_to_map v : gmap listener_id L) = <[i := l]> (list_to_map (swap_pop n v)).
Proof using Type.
  intros Hnodup Hn.
  pose proof (swap_pop_Permutation v n (i, l) Hn) as Hperm.
  assert (NoDup ((i, l) :: swap_pop n v).*1) as Hnodup'
    by (by rewrite <- Hperm).
  rewrite fmap_cons in Hnodup'. apply NoDup_cons in Hnodup' as [Hnotin Hrest].
  split_and!; [done|done|].
  by rewrite (list_to_map_proper _ _ Hnodup Hperm).
Qed.

(** X6. With distinct pending ids, unregistering one listener leaves every
    other id as it would have been at the next dispatch: live with the same
    callback, or not live. *)
Theorem remove_listener_others ob (received_from : peer) (input : archive)
    (priv : bool) i j :
  NoDup (m_to_add ob).*1 →
  j ≠ i →
  m_listeners (build_and_call moved_from extract (remove_listener ob i).1
                 received_from input priv).1 !! j
  = m_listeners (build_and_call moved_from extract ob received_from input
                   priv).1 !! j.
Proof using Type.
  intros Hnodup Hne. rewrite !build_and_call_live, !apply_queues_union.
  destruct (remove_listener_cases ob i)
    as [->|[(_ & _ & ->)|(_ & n & l & Hn & ->)]]; simpl; [done| |].
  - by rewrite (bool_decide_ext (j ∈ m_to_remove ob ++ [i]) (j ∈ m_to_remove ob))
      by (rewrite elem_of_app, list_elem_of_singleton; tauto).
  - destruct (swap_pop_keys _ _ _ _ Hnodup Hn) as (_ & _ & ->).
    by rewrite !lookup_union, lookup_insert_ne by done.
Qed.

(** X7. With distinct pending ids, a listener whose [remove_listener]
    returned true is not live at the next dispatch. *)
Theorem removed_listener_not_live ob (received_from : peer) (input : archive)
    (priv : bool) i :
  NoDup (m_to_add ob).*1 →
  (remove_listener ob i).2 = true →
  m_listeners (build_and_call moved_from extract (remove_listener ob i).1
                 received_from input priv).1 !! i = None.
Proof using Type.
  intros Hnodup. rewrite build_and_call_live, apply_queues_union.
  destruct (remove_listener_cases ob i)
    as [->|[(_ & _ & ->)|(Hlive & n & l & Hn & ->)]]; simpl; [done| |]; intros _.
  - rewrite bool_decide_eq_true_2; [done|].
    rewrite elem_of_app, list_elem_of_singleton. by right.
  - destruct (swap_pop_keys _ _ _ _ Hnodup Hn) as (Hnotin & _ & _).
    case_bool_decide; [done|].
    apply lookup_union_None. split; [done|].
    by apply not_elem_of_list_to_map_1.
Qed.

(** X8. With distinct pending ids, unregistering the same id twice in a
    row makes the second call return false and change nothing. *)
Theorem remove_listener_twice ob i :
  NoDup (m_to_add ob).*1 →
  remove_listener (remove_listener ob i).1 i = ((remove_listener ob i).1, false).
Proof using Type.
  intros Hnodup.
  destruct (remove_listener_cases ob i)
    as [Hsame|[(Hlive & _ & ->)|(Hlive & n & l & Hn & ->)]]; simpl.
  - by rewrite Hsame.
  - unfold remove_listener. simpl.
    rewrite bool_decide_eq_true_2 by done.
    rewrite bool_decide_eq_true_2; [done|].
    rewrite elem_of_app, list_elem_of_singleton. by right.
  - destruct (swap_pop_keys _ _ _ _ Hnodup Hn) as (Hnotin & _ & _).
    unfold remove_listener. simpl.
    rewrite bool_decide_eq_false_2 by (rewrite Hlive; by intros [??]).
    assert (list_find (λ l_it : listener_id * L, l_it.1 = i)
              (swap_pop n (m_to_add ob)) = None) as ->; [|done].
    apply list_find_None, Forall_forall. intros [k l'] Hin Hk. simpl in Hk.
    subst k. apply Hnotin, list_elem_of_fmap. by exists (i, l').
Qed.

(** X9. No sequence of [add_listener] and [remove_listener] calls changes
    the live map: only a dispatch boundary and [clear_any] do. *)
Theorem listener_run_live ob (cs : list (listener_call L)) :
  m_listeners (listener_run hash_code ob cs) = m_listeners ob.
Proof using Type.
  unfold listener_run. revert ob.
  induction cs as [|c cs IH]; intros ob; simpl; [done|].
  rewrite IH. destruct c as [i l|i]; simpl; [done|].
  destruct (remove_listener_cases ob i)
    as [->|[(_ & _ & ->)|(_ & n & l & _ & ->)]]; done.
Qed.

(** X10. Registrations never schedule an id for removal twice: from a
    to-remove vector without duplicates, any sequence of [add_listener] and
    [remove_listener] calls followed by a dispatch leaves a to-remove
    vector without duplicates. *)
Theorem to_remove_NoDup ob (cs : list (listener_call L))
    (received_from : peer) (input : archive) (priv : bool) :
  NoDup (m_to_remove ob) →
  NoDup (m_to_remove
           (build_and_call moved_from extract (listener_run hash_code ob cs)
              received_from input priv).1).
Proof using Type.
  intros Hnodup.
  assert (NoDup (m_to_remove (listener_run hash_code ob cs))) as Hrun.
  { unfold listener_run. revert ob Hnodup.
    induction cs as [|c cs IH]; intros ob Hnodup; simpl; [done|].
    apply IH. destruct c as [i l|i]; simpl; [done|].
    destruct (remove_listener_cases ob i)
      as [->|[(_ & Hfresh & ->)|(_ & n & l & _ & ->)]]; simpl; try done.
    apply NoDup_app. split_and!; [done| |apply NoDup_singleton].
    intros k Hk ->%list_elem_of_singleton. done. }
  unfold build_and_call. case_bool_decide; [done|].
  by destruct (extract input).
Qed.

End object_builder_more.

(** X2, at the registry of the scenario after [remove_listener], where id
    [1] is live, pending and scheduled. *)
Lemma scheduled_listener_not_called_witness :
  let result :=
    ObjectBuilder.build_and_call RegistryScenario.moved_from
      RegistryScenario.extract RegistryScenario.unregistered.1 tt [6%nat] false in
  ObjectBuilder.m_listeners result.1 !! 1 = None
  ∧ ∀ c, c ∈ ObjectBuilder.calls result.2
         → ObjectBuilder.wrapper_listener_id c.2 ≠ 1.
Proof.
  apply (scheduled_listener_not_called RegistryScenario.moved_from
           RegistryScenario.extract RegistryScenario.unregistered.1 tt
           [6%nat] false 1).
  vm_compute. constructor.
Defined.

(** X3, on the empty registry. *)
Lemma added_listener_called_witness :
  let result :=
    ObjectBuilder.build_and_call RegistryScenario.moved_from
      RegistryScenario.extract
      (ObjectBuilder.add_listener 0 ObjectBuilder.empty_builder 1 7%nat).1
      tt [5%nat] false in
  ObjectBuilder.m_listeners result.1 !! 1 = Some 7%nat
  ∧ ObjectBuilder.returned result.2 = true
  ∧ (7%nat, ObjectBuilder.mk_wrapper tt 5%nat false 1)
    ∈ ObjectBuilder.calls result.2.
Proof.
  apply (added_listener_called RegistryScenario.moved_from
           RegistryScenario.extract 0 ObjectBuilder.empty_builder tt [5%nat]
           false 1 7%nat).
  - reflexivity.
  - apply not_elem_of_nil.
  - apply not_elem_of_nil.
Defined.

(** X4, on the empty registry. *)
Lemma add_then_remove_witness :
  ObjectBuilder.remove_listener
    (ObjectBuilder.add_listener 0 ObjectBuilder.empty_builder 1 7%nat).1 1
  = (ObjectBuilder.empty_builder, true).
Proof.
  apply (add_then_remove 0 ObjectBuilder.empty_builder 1 7%nat).
  - reflexivity.
  - apply not_elem_of_nil.
Defined.

(** X6, at the registry left by the first dispatch of the scenario:
    unregistering id [1] does not make id [2] live. *)
Lemma remove_listener_others_witness :
  ObjectBuilder.m_listeners
    (ObjectBuilder.build_and_call RegistryScenario.moved_from
       RegistryScenario.extract
       (ObjectBuilder.remove_listener RegistryScenario.first_dispatch.1 1).1
       tt [6%nat] false).1 !! 2
  = ObjectBuilder.m_listeners
      (ObjectBuilder.build_and_call RegistryScenario.moved_from
         RegistryScenario.extract RegistryScenario.first_dispatch.1
         tt [6%nat] false).1 !! 2.
Proof.
  apply (remove_listener_others RegistryScenario.moved_from
           RegistryScenario.extract RegistryScenario.first_dispatch.1 tt
           [6%nat] false 1 2).
  - vm_compute. apply NoDup_singleton.
  - discriminate.
Defined.

(** X7, at the registry left by the first dispatch of the scenario. *)
Lemma removed_listener_not_live_witness :
  ObjectBuilder.m_listeners
    (ObjectBuilder.build_and_call RegistryScenario.moved_from
       RegistryScenario.extract
       (ObjectBuilder.remove_listener RegistryScenario.first_dispatch.1 1).1
       tt [6%nat] false).1 !! 1
  = None.
Proof.
  apply (removed_listener_not_live RegistryScenario.moved_from
           RegistryScenario.extract RegistryScenario.first_dispatch.1 tt
           [6%nat] false 1).
  - vm_compute. apply NoDup_singleton.
  - reflexivity.
Defined.

(** X8, at the registry left by the first dispatch of the scenario. *)
Lemma remove_listener_twice_witness :
  ObjectBuilder.remove_listener
    (ObjectBuilder.remove_listener RegistryScenario.first_dispatch.1 1).1 1
  = ((ObjectBuilder.remove_listener RegistryScenario.first_dispatch.1 1).1,
     false).
Proof.
  apply (remove_listener_twice RegistryScenario.first_dispatch.1 1).
  vm_compute. apply NoDup_singleton.
Defined.

(** X10, at the registry left by the first dispatch of the scenario, for a
    second listener registered and the live one unregistered twice before
    the next dispatch. *)
Lemma to_remove_NoDup_witness :
  NoDup
    (ObjectBuilder.m_to_remove
       (ObjectBuilder.build_and_call RegistryScenario.moved_from
          RegistryScenario.extract
          (ObjectBuilder.listener_run 0 RegistryScenario.first_dispatch.1
             [ObjectBuilder.call_add_listener 2 8%nat;
              ObjectBuilder.call_remove_listener 1;
              ObjectBuilder.call_remove_listener 1])
          tt [5%nat] false).1).
Proof.
  apply (to_remove_NoDup RegistryScenario.moved_from RegistryScenario.extract 0
           RegistryScenario.first_dispatch.1).
  vm_compute. constructor.
Defined.

(** * Further properties of the peer manager and of the TCP I/O manager *)

Section managers_more.
Context {connection_listener data_received_listener disconnection_listener : Type}.
Variable make_little_endian : list ascii → list ascii → list ascii.
Variable invalid_state : string → completion unit.

Local Abbreviation manager :=
  (basic_peer_manager connection_listener data_received_listener
     disconnection_listener).
Implicit Types (pm owner : manager).

Lemma N_of_uint8 (n : N) : N_of_ascii (uint8 n) = n `mod` 256.
Proof. unfold uint8. apply N_ascii_embedding, N.mod_lt. lia. Qed.

(** X12. On a stopped manager, [port(p)] with a new port completes, sets
    [m_port], rebinds the IPv6 acceptor and, when there is one, the IPv4
    acceptor to [p], and rebuilds the identity packet from the manager
    that already carries the new port; the peer table, the id counter, the
    local peer and the running flag are untouched, and a second [port(p)]
    changes nothing. *)
Theorem port_assign_rebinds pm (p : N) :
  m_running pm = false →
  p ≠ m_port pm →
  ∃ pm',
    port_assign make_little_endian invalid_state pm p = Normal pm'
    ∧ port pm' = p
    ∧ m_acceptor (m_manager pm') = p
    ∧ m_acceptor_v4 (m_manager pm') = (λ _, p) <$> m_acceptor_v4 (m_manager pm)
    ∧ m_id_packet (m_manager pm') = make_id_packet make_little_endian pm'
    ∧ m_peers pm' = m_peers pm
    ∧ m_id_count pm' = m_id_count pm
    ∧ self pm' = self pm
    ∧ m_running pm' = false
    ∧ port_assign make_little_endian invalid_state pm' p = Normal pm'.
Proof using Type.
  intros Hstopped Hne. unfold port_assign.
  rewrite bool_decide_eq_true_2 by done.
  unfold require_non_running. rewrite Hstopped. simpl.
  eexists. split; [done|]. split_and!; try done.
  simpl. by rewrite bool_decide_eq_false_2 by auto.
Qed.

(** X13. When [make_little_endian] leaves at least the three reserved
    bytes and at most 256 bytes, and the port fits sixteen bits, the
    identity packet starts with three bytes from which the reader gets the
    packet length (first byte plus one) and the port (second byte times
    256 plus third byte), and its bytes after the third are the bytes
    [make_little_endian] left after the third. *)
Theorem make_id_packet_header owner :
  let filled :=
    make_little_endian (to_string (local_id (self owner))) [zero; zero; zero] in
  (3 ≤ length filled ≤ 256)%nat →
  port owner < 65536 →
  ∃ b0 b1 b2 rest,
    make_id_packet make_little_endian owner = b0 :: b1 :: b2 :: rest
    ∧ rest = drop 3 filled
    ∧ length (make_id_packet make_little_endian owner) = length filled
    ∧ N_of_ascii b0 + 1 = N.of_nat (length filled)
    ∧ N_of_ascii b1 * 256 + N_of_ascii b2 = port owner.
Proof using Type.
  intros filled [Hmin Hmax] Hport. unfold make_id_packet.
  change (resize 3 zero []) with [zero; zero; zero]. fold filled.
  destruct filled as [|f0 [|f1 [|f2 rest]]] eqn:Hfilled; simpl in Hmin; try lia.
  simpl in *. eexists _, _, _, rest. split; [done|]. split_and!.
  - done.
  - done.
  - rewrite N_of_uint8.
    replace (N.of_nat (S (S (S (length rest)))) + (2 ^ 64 - 1))
      with (N.of_nat (S (S (length rest))) + 1 * 2 ^ 64) by lia.
    rewrite N.Div0.mod_add.
    rewrite (N.mod_small _ (2 ^ 64)) by lia.
    rewrite N.mod_small by lia. lia.
  - rewrite uint8_high_byte, uint8_land_255, !N_of_uint8.
    assert (port owner `div` 256 < 256) by (apply N.Div0.div_lt_upper_bound; lia).
    rewrite (N.mod_small (port owner `div` 256)) by done.
    rewrite (N.div_mod (port owner) 256) at 3 by lia. lia.
Qed.

(** X14. The two timer handlers keep to their own job. The keep-alive
    handler closes no socket and issues one call per peer plus its two
    timer calls; its only [expires_from_now] is on the keep-alive timer
    with [keep_alive_send_millis] and its only [async_wait] is on the
    keep-alive timer with itself as handler. A timeout handler that ran to
    its end sent nothing; its only [expires_from_now] is on the timeout
    timer with [timeout_check_interval_millis] and its only [async_wait] is
    on the timeout timer with itself as handler. *)
Theorem timer_handlers_separate args (time_now : Z) owner :
  (∀ target, call_socket_close target ∉ keep_alive_impl args owner)
  ∧ length (keep_alive_impl args owner) = (size (m_peers owner) + 2)%nat
  ∧ (∀ t millisec,
       call_expires_from_now t millisec ∈ keep_alive_impl args owner
       ↔ t = m_keepalive_dlt ∧ millisec = keep_alive_send_millis args)
  ∧ (∀ t h,
       call_async_wait t h ∈ keep_alive_impl args owner
       ↔ t = m_keepalive_dlt ∧ h = keep_alive_impl_handler)
  ∧ (∀ acts,
       timeout_impl args time_now owner = Some acts →
       (∀ command payload target, call_send command payload target ∉ acts)
       ∧ (∀ t millisec,
            call_expires_from_now t millisec ∈ acts
            ↔ t = m_timeout_dlt ∧ millisec = timeout_check_interval_millis args)
       ∧ (∀ t h,
            call_async_wait t h ∈ acts
            ↔ t = m_timeout_dlt ∧ h = timeout_impl_handler)).
Proof using Type.
  split_and!.
  - unfold keep_alive_impl. intros target [Hin|Hin]%elem_of_app.
    + by apply list_elem_of_fmap in Hin as (? & ? & _).
    + apply elem_of_cons in Hin as [?|Hin]; [done|].
      by apply list_elem_of_singleton in Hin.
  - unfold keep_alive_impl. simpl.
    rewrite length_app, length_fmap, length_map_to_list. done.
  - unfold keep_alive_impl. intros t millisec. rewrite elem_of_app. split.
    + intros [Hin|Hin].
      * by apply list_elem_of_fmap in Hin as (? & ? & _).
      * apply elem_of_cons in Hin as [[= -> ->]|Hin]; [done|].
        by apply list_elem_of_singleton in Hin.
    + intros [-> ->]. right. constructor.
  - unfold keep_alive_impl. intros t h. rewrite elem_of_app. split.
    + intros [Hin|Hin].
      * by apply list_elem_of_fmap in Hin as (? & ? & _).
      * apply elem_of_cons in Hin as [?|Hin]; [done|].
        by apply list_elem_of_singleton in Hin as [= -> ->].
    + intros [-> ->]. right. right. constructor.
  - intros acts (closes & -> & Hshape & _)%timeout_impl_Some.
    rewrite Forall_forall in Hshape. split_and!.
    + intros command payload target [Hin|Hin]%elem_of_app.
      * by apply Hshape in Hin as [? ?].
      * apply elem_of_cons in Hin as [?|Hin]; [done|].
        by apply list_elem_of_singleton in Hin.
    + intros t millisec. rewrite elem_of_app. split.
      * intros [Hin|Hin]; [by apply Hshape in Hin as [? ?]|].
        apply elem_of_cons in Hin as [[= -> ->]|Hin]; [done|].
        by apply list_elem_of_singleton in Hin.
      * intros [-> ->]. right. constructor.
    + intros t h. rewrite elem_of_app. split.
      * intros [Hin|Hin]; [by apply Hshape in Hin as [? ?]|].
        apply elem_of_cons in Hin as [?|Hin]; [done|].
        by apply list_elem_of_singleton in Hin as [= -> ->].
      * intros [-> ->]. right. right. constructor.
Qed.

(** X15. No spurious timeout: with a timeout below 2^63 ms, when every
    peer of the table was heard from no longer than [timeout_millis] ago,
    the timeout handler runs to its end, closes nothing and only re-arms
    its timer. *)
Theorem timeout_impl_all_heard args (time_now : Z) owner :
  timeout_millis args < 2 ^ 63 →
  (∀ k p, m_peers owner !! k = Some p →
          (time_now - timestamp (io_data p) ≤ Z.of_N (timeout_millis args))%Z) →
  timeout_impl args time_now owner
  = Some [call_expires_from_now m_timeout_dlt (timeout_check_interval_millis args);
          call_async_wait m_timeout_dlt timeout_impl_handler].
Proof using Type.
  intros Hsmall Hheard. unfold timeout_impl. simpl.
  assert (∀ v : list (uuid * basic_peer),
            (∀ kp, kp ∈ v → m_peers owner !! kp.1 = Some kp.2) →
            close_timed_out args time_now v = Some []) as Hnone.
  { induction v as [|[k p] v IH]; intros Hv; [done|]. simpl.
    specialize (Hheard k p (Hv (k, p) ltac:(by left))).
    destruct (timed_out args time_now p) eqn:Htimed.
    - apply (timed_out_small _ _ _ Hsmall) in Htimed. lia.
    - apply IH. intros kp ?. apply Hv. by right. }
  rewrite Hnone; [done|].
  intros [k p] Hin. by apply elem_of_map_to_list.
Qed.

(** X16. Once a scan closes a peer's socket, every later scan of the same
    table that runs to its end closes it too; a later scan that does not
    run to its end went through the null socket pointer of a peer that
    timed out. *)
Theorem timeout_impl_monotone args (t t' : Z) owner target acts :
  timeout_impl args t owner = Some acts →
  call_socket_close target ∈ acts →
  (t ≤ t')%Z →
  match timeout_impl args t' owner with
  | Some acts' => call_socket_close target ∈ acts'
  | None =>
      ∃ k p, m_peers owner !! k = Some p ∧ timed_out args t' p = true
             ∧ socket (io_data p) = None
  end.
Proof using Type.
  intros (closes & _ & _ & Hiff)%timeout_impl_Some Hin Hlater.
  apply Hiff in Hin as [Htable Htimed].
  destruct (timeout_impl args t' owner) as [acts'|] eqn:Hlate.
  - apply timeout_impl_Some in Hlate as (closes' & _ & _ & Hiff').
    apply Hiff'. split; [done|].
    unfold timed_out in *. apply Z.ltb_lt. apply Z.ltb_lt in Htimed. lia.
  - by apply timeout_impl_None.
Qed.

(** X17. A peer whose I/O record was built around a socket at time [t0]
    has the whole timeout ahead of it: with a timeout below 2^63 ms, a scan
    at time [time_now] that runs to its end closes its socket exactly when
    more than [timeout_millis] have passed since [t0]. *)
Theorem constructed_peer_timeout args (time_now t0 : Z) owner k target
    (buffer_length : N) (sock : nat) acts :
  timeout_millis args < 2 ^ 63 →
  m_peers owner !! k = Some target →
  io_data target = new_io_manager_data buffer_length (Some sock) t0 →
  timeout_impl args time_now owner = Some acts →
  call_socket_close target ∈ acts
  ↔ (Z.of_N (timeout_millis args) < time_now - t0)%Z.
Proof using Type.
  intros Hsmall Hk Hdata (closes & _ & _ & Hiff)%timeout_impl_Some.
  rewrite Hiff, (timed_out_small _ _ _ Hsmall), Hdata. simpl.
  split; [by intros [_ ?]|]. intros ?. split; [by exists k|done].
Qed.

End managers_more.

(** X12, on the stopped manager of the scenario, moved to port 3480. *)
Lemma port_assign_rebinds_witness :
  ∃ pm',
    port_assign ManagerScenario.copy_bytes ManagerScenario.raising
      ManagerScenario.stopped 3480 = Normal pm'
    ∧ port pm' = 3480
    ∧ m_acceptor (m_manager pm') = 3480
    ∧ m_acceptor_v4 (m_manager pm')
      = (λ _, 3480) <$> m_acceptor_v4 (m_manager ManagerScenario.stopped)
    ∧ m_id_packet (m_manager pm') = make_id_packet ManagerScenario.copy_bytes pm'
    ∧ m_peers pm' = m_peers ManagerScenario.stopped
    ∧ m_id_count pm' = m_id_count ManagerScenario.stopped
    ∧ self pm' = self ManagerScenario.stopped
    ∧ m_running pm' = false
    ∧ port_assign ManagerScenario.copy_bytes ManagerScenario.raising pm' 3480
      = Normal pm'.
Proof.
  apply (port_assign_rebinds ManagerScenario.copy_bytes ManagerScenario.raising
           ManagerScenario.stopped 3480).
  - reflexivity.
  - discriminate.
Defined.

(** X13, on a host where [make_little_endian] copies. *)
Lemma make_id_packet_header_witness :
  ∃ b0 b1 b2 rest,
    make_id_packet ManagerScenario.copy_bytes ManagerScenario.stopped
    = b0 :: b1 :: b2 :: rest
    ∧ rest
      = drop 3 (ManagerScenario.copy_bytes
                  (to_string (local_id (self ManagerScenario.stopped)))
                  [zero; zero; zero])
    ∧ length (make_id_packet ManagerScenario.copy_bytes ManagerScenario.stopped)
      = length (ManagerScenario.copy_bytes
                  (to_string (local_id (self ManagerScenario.stopped)))
                  [zero; zero; zero])
    ∧ N_of_ascii b0 + 1
      = N.of_nat (length (ManagerScenario.copy_bytes
                            (to_string (local_id (self ManagerScenario.stopped)))
                            [zero; zero; zero]))
    ∧ N_of_ascii b1 * 256 + N_of_ascii b2 = port ManagerScenario.stopped.
Proof.
  apply (make_id_packet_header ManagerScenario.copy_bytes ManagerScenario.stopped).
  - vm_compute. lia.
  - reflexivity.
Defined.

(** X15, for the default timeout, 2000 ms after the epoch, with a
    neighbour heard at 1000 ms. *)
Lemma timeout_impl_all_heard_witness :
  timeout_impl io_manager 2000 ManagerScenario.neighbours
  = Some [call_expires_from_now m_timeout_dlt 24000;
          call_async_wait m_timeout_dlt timeout_impl_handler].
Proof.
  apply (timeout_impl_all_heard io_manager 2000 ManagerScenario.neighbours).
  - reflexivity.
  - intros k p Hk.
    unfold ManagerScenario.neighbours, set_m_peers in Hk. simpl in Hk.
    apply lookup_singleton_Some in Hk as [_ <-]. vm_compute. discriminate.
Defined.

(** X16, for the neighbour of the scenario, heard at 1000 ms, at 200000 ms
    and 300000 ms. *)
Lemma timeout_impl_monotone_witness :
  match timeout_impl io_manager 300000 ManagerScenario.neighbours with
  | Some acts' => call_socket_close ManagerScenario.near_peer ∈ acts'
  | None =>
      ∃ k p, m_peers ManagerScenario.neighbours !! k = Some p
             ∧ timed_out io_manager 300000 p = true
             ∧ socket (io_data p) = None
  end.
Proof.
  apply (timeout_impl_monotone io_manager 200000 300000
           ManagerScenario.neighbours ManagerScenario.near_peer
           [call_socket_close ManagerScenario.near_peer;
            call_expires_from_now m_timeout_dlt 24000;
            call_async_wait m_timeout_dlt timeout_impl_handler]).
  - reflexivity.
  - constructor.
  - discriminate.
Defined.

(** X17, for a peer accepted at 5000 ms and the default timeout. *)
Lemma constructed_peer_timeout_witness :
  call_socket_close ManagerScenario.accepted_peer
  ∈ [call_socket_close ManagerScenario.accepted_peer;
     call_expires_from_now m_timeout_dlt 24000;
     call_async_wait m_timeout_dlt timeout_impl_handler]
  ↔ (120000 < 130000 - 5000)%Z.
Proof.
  apply (constructed_peer_timeout io_manager 130000 5000
           ManagerScenario.accepting (id ManagerScenario.accepted_peer)
           ManagerScenario.accepted_peer 1024 2%nat).
  - reflexivity.
  - apply lookup_singleton_eq.
  - reflexivity.
  - reflexivity.
Defined.
